(** * Optimal power and bandwidth allocation in a Gaussian channel

    A shallow embedding of [optimal_power], the one function of the notebook
    [examples/notebooks/WWW/optimal_power_gaussian_channel_BV4.62.ipynb],
    and of the symbolic problem it hands to the convex solver.

    Python floats are IEEE binary64 numbers and are modelled by Rocq's
    primitive floats; the mathematical meaning of the symbolic problem is
    given over the real numbers.  A call ends by returning or by an
    exception; the two places where the modelling library can raise, the
    assignment of a parameter's value and the solve step, are parameters
    of the embedding. *)

From Stdlib Require Import String List ZArith Bool Arith Lia.
From Stdlib Require Import PrimFloat.
From Stdlib Require SpecFloat FloatOps.
From Stdlib Require Import Reals Lra.
Import ListNotations.

Set Implicit Arguments.

(** ** The symbolic layer supplied by the modelling library

    The notebook only composes objects of the modelling library.  The
    constructors below are the ones the notebook calls, and [cp.Maximize],
    the other sense an objective can have; [F] is the type of the numeric
    literals and of the parameter values ([float] in the program, [R] for
    the mathematical reading of a problem). *)

Module Cp.

(** The two decision variables of the notebook, by the name they are
    bound to. *)
Inductive Var : Set := P | W.

(** The two parameters of the notebook. *)
Inductive Param : Set := alpha | beta.

Section Symbolic.
Variable F : Type.

Inductive Expression : Type :=
| Variable_ (v : Var) (shape : nat)        (* cp.Variable(shape=n) *)
| Parameter_ (p : Param) (shape : nat) (value : option (list F))
                                           (* cp.Parameter(shape=n) *)
| Constant (c : F)                         (* a Python number *)
| multiply (x y : Expression)              (* cp.multiply(x, y) *)
| kl_div (x y : Expression)                (* cp.kl_div(x, y) *)
| add (x y : Expression)                   (* x + y *)
| sub (x y : Expression)                   (* x - y *)
| sum (x : Expression).                    (* cp.sum(x) *)

Inductive Constraint : Type :=
| Ge (lhs rhs : Expression)                (* lhs >= rhs *)
| Eq (lhs rhs : Expression).               (* lhs == rhs *)

Inductive Objective : Type :=
| Minimize (e : Expression)                (* cp.Minimize(e) *)
| Maximize (e : Expression).               (* cp.Maximize(e) *)

Record Problem : Type := mkProblem
  { objective : Objective;
    constraints : list Constraint }.

(** [alpha.value = v] *)
Definition set_value (e : Expression) (v : list F) : Expression :=
  match e with
  | Parameter_ p shape _ => Parameter_ p shape (Some v)
  | _ => e
  end.
End Symbolic.

Arguments Variable_ {F} v shape.
Arguments Parameter_ {F} p shape value.
Arguments Constant {F} c.
Arguments Minimize {F} e.
Arguments Maximize {F} e.

End Cp.

(** ** Python values returned by the function *)

Inductive PyVal : Type :=
| PyFloat (x : float)          (* a scalar float, such as [np.nan] *)
| PyArray (xs : list float)    (* a one-dimensional array *)
| PyNone.

(** What the solve step leaves behind when it returns: [prob.status],
    [prob.value] and the [value] attribute of each decision variable. *)
Record Solved : Type := mkSolved
  { status : string;
    value : float;
    var_value : Cp.Var -> PyVal }.

(** A Python exception: its class and its message. *)
Record PyExn : Type := mkExn
  { exn_class : string;
    exn_message : string }.

(** How a call ends: it returns a value or an exception leaves it.  The
    notebook has no [try], so an exception raised inside a call to the
    library leaves [optimal_power] and the cell that called it. *)
Inductive Outcome (A : Type) : Type :=
| Returned (a : A)
| Raised (e : PyExn).

Arguments Returned {A} a.
Arguments Raised {A} e.

(** ** Effects: what a call does besides returning

    Every statement of [optimal_power] that writes to standard output or
    calls into the modelling library to create an object or to solve is
    recorded, in program order.  Building an expression, a constraint or an
    objective with [cp.multiply], [cp.kl_div], [+], [-], [cp.sum], [>=],
    [==] or [cp.Minimize] yields an immutable term and is the constructor
    itself; these terms reach the library only inside the problem.  An
    assignment to [value] that the library refuses leaves no event; a call
    of the solver is recorded whether it returns or raises. *)

Inductive Event : Type :=
| Print (line : string)                                (* print(line) *)
| NewVariable (v : Cp.Var) (shape : nat)               (* cp.Variable *)
| NewParameter (p : Cp.Param) (shape : nat)            (* cp.Parameter *)
| SetValue (p : Cp.Param) (v : list float)             (* p.value = v *)
| NewProblem (prob : Cp.Problem float)                 (* cp.Problem *)
| Solve (prob : Cp.Problem float).                     (* prob.solve() *)

(** A computation ends in an outcome, having performed some events. *)
Definition M (A : Type) : Type := (Outcome A * list Event)%type.

Definition ret {A} (a : A) : M A := (Returned a, []).

Definition raise {A} (e : PyExn) : M A := (Raised e, []).

(** Sequencing: an exception skips the statements that follow. *)
Definition bind {A B} (m : M A) (k : A -> M B) : M B :=
  match m with
  | (Returned a, l1) => let '(o, l2) := k a in (o, l1 ++ l2)
  | (Raised e, l1) => (Raised e, l1)
  end.

Declare Scope py_scope.
Delimit Scope py_scope with py.
Notation "x <- c ;; k" := (bind c (fun x => k))
  (at level 100, c at next level, right associativity) : py_scope.
Notation "c ;;; k" := (bind c (fun _ => k))
  (at level 100, right associativity) : py_scope.

(** The lines written to standard output, in order. *)
Fixpoint stdout (l : list Event) : list string :=
  match l with
  | [] => []
  | Print s :: l' => s :: stdout l'
  | _ :: l' => stdout l'
  end.

(** The problems handed to the solver, in order. *)
Fixpoint solver_calls (l : list Event) : list (Cp.Problem float) :=
  match l with
  | [] => []
  | Solve p :: l' => p :: solver_calls l'
  | _ :: l' => solver_calls l'
  end.

(** Whether an event creates an object of the modelling library or solves. *)
Definition is_library_call (e : Event) : bool :=
  match e with
  | Print _ => false
  | _ => true
  end.

(** ** The notebook's definitions that do not depend on the run *)

Section Formulation.
Variable F : Type.
(** The literal [0.0]. *)
Variable zero : F.

Let Expression : Type := Cp.Expression F.

(** Lines 73-75: the vector expression bound to [R] (the name [R] is the
    type of real numbers here). *)
Definition R_expr (alpha W beta P : Expression) : Expression :=
  Cp.sub
    (Cp.kl_div (Cp.multiply alpha W)
               (Cp.multiply alpha (Cp.add W (Cp.multiply beta P))))
    (Cp.multiply alpha (Cp.multiply beta P)).

(** Line 77. *)
Definition objective_of (R : Expression) : Cp.Objective F :=
  Cp.Minimize (Cp.sum R).

(** Lines 78-81. *)
Definition constraints_of (P W : Expression) (P_tot W_tot : F)
  : list (Cp.Constraint F) :=
  [ Cp.Ge P (Cp.Constant zero);
    Cp.Ge W (Cp.Constant zero);
    Cp.Eq (Cp.sub (Cp.sum P) (Cp.Constant P_tot)) (Cp.Constant zero);
    Cp.Eq (Cp.sub (Cp.sum W) (Cp.Constant W_tot)) (Cp.Constant zero) ].

(** The problem of lines 63-83 for coefficient vectors of one length,
    read off without the run: what [optimal_power] hands to the solver
    (lemma [body_equal_length]). *)
Definition formulate (a_val b_val : list F) (P_tot W_tot : F)
  : Cp.Problem F :=
  let n := length a_val in
  let P := Cp.Variable_ Cp.P n in
  let W := Cp.Variable_ Cp.W n in
  let alpha := Cp.Parameter_ Cp.alpha n (Some a_val) in
  let beta := Cp.Parameter_ Cp.beta n (Some b_val) in
  Cp.mkProblem (objective_of (R_expr alpha W beta P))
               (constraints_of P W P_tot W_tot).
End Formulation.

Unset Implicit Arguments.

(** ** [optimal_power] *)

Definition same_length_message : string :=
  "alpha and beta vectors must have same length!".

(** The tuple the function returns: status, utility, power, bandwidth. *)
Definition Result : Type := (string * PyVal * PyVal * PyVal)%type.

Section OptimalPower.
(** The two run-time behaviours of the modelling library the function
    depends on; the library's code is not part of the notebook.

    [refuses v] is the exception the setter of [Parameter.value] raises
    for the array [v], if it refuses it ([cvxpy_refuses] below is what the
    library does). *)
Variable refuses : list float -> option PyExn.
(** [solve prob] is how [prob.solve()] ends: it returns, leaving a status,
    a value and the variables' values, or it raises. *)
Variable solve : Cp.Problem float -> Outcome Solved.

Definition print (line : string) : M unit := (Returned tt, [Print line]).

Definition cp_Variable (v : Cp.Var) (shape : nat)
  : M (Cp.Expression float) :=
  (Returned (Cp.Variable_ v shape), [NewVariable v shape]).

Definition cp_Parameter (p : Cp.Param) (shape : nat)
  : M (Cp.Expression float) :=
  (Returned (Cp.Parameter_ p shape None), [NewParameter p shape]).

Definition assign_value (p : Cp.Param) (e : Cp.Expression float)
           (v : list float) : M (Cp.Expression float) :=
  match refuses v with
  | Some exn => raise exn
  | None => (Returned (Cp.set_value e v), [SetValue p v])
  end.

Definition cp_Problem (o : Cp.Objective float)
           (cs : list (Cp.Constraint float)) : M (Cp.Problem float) :=
  let prob := Cp.mkProblem o cs in (Returned prob, [NewProblem prob]).

Definition prob_solve (prob : Cp.Problem float) : M Solved :=
  (solve prob, [Solve prob]).

Local Open Scope py_scope.

(** [def optimal_power(n, a_val, b_val, P_tot, W_tot)], with all five
    arguments bound. *)
Definition optimal_power_body (n : Z) (a_val b_val : list float)
           (P_tot W_tot : float) : M Result :=
  let n := length a_val in
  if negb (n =? length b_val)%nat then
    print same_length_message ;;;
    ret ("failed"%string, PyFloat nan, PyFloat nan, PyFloat nan)
  else
    P <- cp_Variable Cp.P n ;;
    W <- cp_Variable Cp.W n ;;
    alpha <- cp_Parameter Cp.alpha n ;;
    beta <- cp_Parameter Cp.beta n ;;
    alpha <- assign_value Cp.alpha alpha a_val ;;
    beta <- assign_value Cp.beta beta b_val ;;
    let R := R_expr alpha W beta P in
    let objective := objective_of R in
    let constraints := constraints_of 0%float P W P_tot W_tot in
    prob <- cp_Problem objective constraints ;;
    sol <- prob_solve prob ;;
    ret (status sol, PyFloat (- value sol)%float,
         var_value sol Cp.P, var_value sol Cp.W).

(** The defaults of the signature: [P_tot=1.0, W_tot=1.0].  An argument
    left out at the call site is [None]. *)
Definition P_tot_default : float := 1%float.
Definition W_tot_default : float := 1%float.

Definition bound_to (default : float) (arg : option float) : float :=
  match arg with
  | Some x => x
  | None => default
  end.

Definition optimal_power (n : Z) (a_val b_val : list float)
           (P_tot W_tot : option float) : M Result :=
  optimal_power_body n a_val b_val
    (bound_to P_tot_default P_tot) (bound_to W_tot_default W_tot).
End OptimalPower.

(** ** The library's behaviour on concrete inputs *)

(** The exception of the value setter. *)
Definition parameter_value_error : PyExn :=
  {| exn_class := "ValueError";
     exn_message := "Parameter value must be real." |}.

(** The setter of [Parameter.value] refuses an array with a NaN or an
    infinite entry and accepts every other array of the parameter's
    shape. *)
Definition cvxpy_refuses (v : list float) : option PyExn :=
  if forallb is_finite v then None else Some parameter_value_error.

(** ** Vocabulary of the statements *)

(** The tuple of line 61. *)
Definition failure_sentinel : Result :=
  ("failed"%string, PyFloat nan, PyFloat nan, PyFloat nan).

(** A run took the failure path of lines 59-61: it printed the message and
    returned the sentinel, and did nothing else. *)
Definition takes_failure_path (run : M Result) : Prop :=
  run = (Returned failure_sentinel, [Print same_length_message]).

(** The events of lines 63-66. *)
Definition creation_events (a_val : list float) : list Event :=
  let n := length a_val in
  [ NewVariable Cp.P n; NewVariable Cp.W n;
    NewParameter Cp.alpha n; NewParameter Cp.beta n ].

(** The events of lines 63-84, for the problem [prob] of line 83. *)
Definition main_path_events (a_val b_val : list float)
           (prob : Cp.Problem float) : list Event :=
  let n := length a_val in
  [ NewVariable Cp.P n; NewVariable Cp.W n;
    NewParameter Cp.alpha n; NewParameter Cp.beta n;
    SetValue Cp.alpha a_val; SetValue Cp.beta b_val;
    NewProblem prob; Solve prob ].

(** The problems built with [cp.Problem], in order. *)
Fixpoint problems_built (l : list Event) : list (Cp.Problem float) :=
  match l with
  | [] => []
  | NewProblem p :: l' => p :: problems_built l'
  | _ :: l' => problems_built l'
  end.

(** The size a variable or a parameter was created with. *)
Definition event_shape (e : Event) : option nat :=
  match e with
  | NewVariable _ k | NewParameter _ k => Some k
  | _ => None
  end.

Definition status_of (r : Result) : string := fst (fst (fst r)).
Definition utility_of (r : Result) : PyVal := snd (fst (fst r)).
Definition power_of (r : Result) : PyVal := snd (fst r).
Definition bandwidth_of (r : Result) : PyVal := snd r.

(** A solver answer used to run the model on concrete inputs. *)
Definition sample_solver (_ : Cp.Problem float) : Outcome Solved :=
  Returned
    {| status := "optimal";
       value := (-2.5)%float;
       var_value := fun v =>
         match v with
         | Cp.P => PyArray [0.5%float]
         | Cp.W => PyArray [1%float]
         end |}.

(** A solver that reports the problem infeasible. *)
Definition infeasible_solver (_ : Cp.Problem float) : Outcome Solved :=
  Returned
    {| status := "infeasible";
       value := infinity;
       var_value := fun _ => PyNone |}.

(** A solver that fails and raises. *)
Definition solver_error : PyExn :=
  {| exn_class := "SolverError";
     exn_message := "Solver failed." |}.

Definition failing_solver (_ : Cp.Problem float) : Outcome Solved :=
  Raised solver_error.

(** ** The mathematical reading of a problem

    Expressions denote real scalars or real vectors; a decision variable
    denotes the vector an assignment gives it. *)

Module Sem.
Open Scope R_scope.

(** Modelled from the spec: the divergence primitive [kl_div] of the
    solving library, whose code is not part of the notebook:
    kl_div(x,y) = x·log(x/y) − x + y with the natural logarithm, for
    positive [x] and [y]. *)
Definition kl_div (x y : R) : R := x * ln (x / y) - x + y.

Inductive Val : Type :=
| Scalar (r : R)
| Vector (l : list R).

Fixpoint zip_with (f : R -> R -> R) (xs ys : list R) : list R :=
  match xs, ys with
  | x :: xs', y :: ys' => f x y :: zip_with f xs' ys'
  | _, _ => []
  end.

(** Elementwise operations; a scalar operand is promoted. *)
Definition lift2 (f : R -> R -> R) (x y : Val) : Val :=
  match x, y with
  | Scalar a, Scalar b => Scalar (f a b)
  | Scalar a, Vector ys => Vector (map (f a) ys)
  | Vector xs, Scalar b => Vector (map (fun a => f a b) xs)
  | Vector xs, Vector ys => Vector (zip_with f xs ys)
  end.

Definition total (l : list R) : R := fold_right Rplus 0 l.

Definition sum_of (x : Val) : Val :=
  match x with
  | Scalar a => Scalar a
  | Vector xs => Scalar (total xs)
  end.

Definition option_lift2 (f : Val -> Val -> Val) (x y : option Val)
  : option Val :=
  match x, y with
  | Some a, Some b => Some (f a b)
  | _, _ => None
  end.

(** The value of an expression under an assignment of the decision
    variables; a parameter without a value has none. *)
Fixpoint eval (env : Cp.Var -> list R) (e : Cp.Expression R)
  : option Val :=
  match e with
  | Cp.Variable_ v _ => Some (Vector (env v))
  | Cp.Parameter_ _ _ (Some l) => Some (Vector l)
  | Cp.Parameter_ _ _ None => None
  | Cp.Constant c => Some (Scalar c)
  | Cp.multiply x y => option_lift2 (lift2 Rmult) (eval env x) (eval env y)
  | Cp.kl_div x y => option_lift2 (lift2 kl_div) (eval env x) (eval env y)
  | Cp.add x y => option_lift2 (lift2 Rplus) (eval env x) (eval env y)
  | Cp.sub x y => option_lift2 (lift2 Rminus) (eval env x) (eval env y)
  | Cp.sum x => option_map sum_of (eval env x)
  end.

Definition related (rel : R -> R -> Prop) (x y : Val) : Prop :=
  match x, y with
  | Scalar a, Scalar b => rel a b
  | Scalar a, Vector ys => Forall (rel a) ys
  | Vector xs, Scalar b => Forall (fun a => rel a b) xs
  | Vector xs, Vector ys => Forall2 rel xs ys
  end.

Definition option_related (rel : R -> R -> Prop) (x y : option Val)
  : Prop :=
  match x, y with
  | Some a, Some b => related rel a b
  | _, _ => False
  end.

Definition satisfies (env : Cp.Var -> list R) (c : Cp.Constraint R)
  : Prop :=
  match c with
  | Cp.Ge l r => option_related Rge (eval env l) (eval env r)
  | Cp.Eq l r => option_related (@eq R) (eval env l) (eval env r)
  end.

(** The assignment satisfies the constraints of the problem.  Where the
    objective is finite is a separate matter ([Alloc.objective_defined]);
    for positive coefficients the constraints of the notebook imply it
    (lemma [feasible_in_domain]). *)
Definition feasible (env : Cp.Var -> list R) (prob : Cp.Problem R)
  : Prop :=
  Forall (satisfies env) (Cp.constraints prob).

(** The value the objective takes, to be minimised. *)
Definition cost (env : Cp.Var -> list R) (prob : Cp.Problem R)
  : option Val :=
  match Cp.objective prob with
  | Cp.Minimize e => eval env e
  | Cp.Maximize e => option_map (lift2 Rmult (Scalar (-1))) (eval env e)
  end.

(** One entry of the vector [R] of lines 73-75, for the entries
    [a], [b], [p], [w] of [alpha], [beta], [P], [W]. *)
Definition R_entry (a b p w : R) : R :=
  kl_div (a * w) (a * (w + b * p)) - a * (b * p).

(** The entries of four vectors, channel by channel. *)
Fixpoint channels (al bl pl wl : list R) : list (R * R * R * R) :=
  match al, bl, pl, wl with
  | a :: al', b :: bl', p :: pl', w :: wl' =>
      (a, b, p, w) :: channels al' bl' pl' wl'
  | _, _, _, _ => []
  end.

(** The rate law of a channel as the notebook and the spec state it:
    R_i = α_i·W_i·log2(1 + β_i·P_i/W_i), with the logarithm to base 2. *)
Definition log2 (x : R) : R := ln x / ln 2.

Definition spec_rate (a b p w : R) : R := a * w * log2 (1 + b * p / w).

(** The same law with the natural logarithm. *)
Definition rate_nats (a b p w : R) : R := a * w * ln (1 + b * p / w).
End Sem.

(** ** Allocations and their rates

    An assignment gives the two decision variables their vectors; the
    vocabulary below speaks about the channels of a formulated problem. *)

Module Alloc.
Import Sem.
Local Open Scope R_scope.

(** The assignment [P = pl], [W = wl]. *)
Definition assignment (pl wl : list R) (v : Cp.Var) : list R :=
  match v with
  | Cp.P => pl
  | Cp.W => wl
  end.

(** Both variables were created with [shape=n] (lines 63-64). *)
Definition well_shaped (env : Cp.Var -> list R) (n : nat) : Prop :=
  length (env Cp.P) = n /\ length (env Cp.W) = n.

(** Every entry of both variables multiplied by [t]. *)
Definition scale (t : R) (env : Cp.Var -> list R) (v : Cp.Var) : list R :=
  map (Rmult t) (env v).

(** The vector with [x] at position [k] and zero at the [k] positions
    before and the [m] positions after. *)
Definition one_hot (k m : nat) (x : R) : list R :=
  repeat 0 k ++ x :: repeat 0 m.

Definition chan_entry (c : R * R * R * R) : R :=
  let '(a, b, p, w) := c in R_entry a b p w.

Definition chan_rate (c : R * R * R * R) : R :=
  let '(a, b, p, w) := c in rate_nats a b p w.

Definition chan_power (c : R * R * R * R) : R :=
  let '(_, _, p, _) := c in p.

Definition chan_bandwidth (c : R * R * R * R) : R :=
  let '(_, _, _, w) := c in w.

(** The total rate of the channels, in nats: Σ α·W·ln(1 + β·P/W). *)
Definition total_rate (cs : list (R * R * R * R)) : R :=
  total (map chan_rate cs).

(** Positive coefficients, non-negative power and bandwidth. *)
Definition in_domain (c : R * R * R * R) : Prop :=
  let '(a, b, p, w) := c in 0 < a /\ 0 < b /\ 0 <= p /\ 0 <= w.

(** Coefficients no larger than [A] and [B]. *)
Definition dominated (A B : R) (c : R * R * R * R) : Prop :=
  let '(a, b, _, _) := c in a <= A /\ b <= B.

(** Where the library's [kl_div] is finite: for positive [x] and [y],
    where it is x·log(x/y) − x + y, and for [x = 0] and [y >= 0], where it
    is [y]; elsewhere it is +∞.  [Sem.kl_div] agrees with it there. *)
Definition kl_div_finite (x y : R) : Prop :=
  (0 < x /\ 0 < y) \/ (x = 0 /\ 0 <= y).

(** Every [kl_div] inside an expression is applied where it is finite. *)
Fixpoint defined (env : Cp.Var -> list R) (e : Cp.Expression R) : Prop :=
  match e with
  | Cp.kl_div x y =>
      defined env x /\ defined env y
      /\ option_related kl_div_finite (eval env x) (eval env y)
  | Cp.multiply x y | Cp.add x y | Cp.sub x y =>
      defined env x /\ defined env y
  | Cp.sum x => defined env x
  | _ => True
  end.

(** The objective is finite at the assignment.  [Sem.feasible] speaks of
    the constraints of lines 78-81 alone; a point the solver can return
    satisfies both. *)
Definition objective_defined (env : Cp.Var -> list R)
           (prob : Cp.Problem R) : Prop :=
  match Cp.objective prob with
  | Cp.Minimize e | Cp.Maximize e => defined env e
  end.
End Alloc.

(** ** The example cell (lines 119-131) *)

(** [np.arange(start, stop)] for integers. *)
Definition arange (start stop : Z) : list Z :=
  map (fun i => (start + Z.of_nat i)%Z) (seq 0 (Z.to_nat (stop - start))).

(** An integer as a float, rounded to the nearest float as the true
    division and [1.0*n] convert it.  The integers of the cell are far
    below 2^1024, where the conversion would overflow. *)
Definition float_of_Z (z : Z) : float :=
  FloatOps.SF2Prim
    (SpecFloat.binary_normalize FloatOps.prec FloatOps.emax z 0 false).

(** [np.arange(10,n+10)/(1.0*n)], the expression of lines 122 and 123. *)
Definition example_coefficients (n : Z) : list float :=
  map (fun k => (float_of_Z k / (1 * float_of_Z n))%float)
      (arange 10 (n + 10)).

(** The number of receivers of line 120. *)
Definition n_receivers : Z := 5.

Definition newline : string := String (Ascii.ascii_of_nat 10) EmptyString.

Section ExampleCell.
Variable refuses : list float -> option PyExn.
Variable solve : Cp.Problem float -> Outcome Solved.
(** The text ['{:.4g}'.format(x)] and the text ['{}'.format(x)] of an
    array under [np.set_printoptions(precision=3)] (line 119): float
    formatting belongs to Python and NumPy. *)
Variable format_4g : PyVal -> string.
Variable format_array : PyVal -> string.

Local Open Scope py_scope.
Local Open Scope string_scope.

(** The cell for [n] receivers, a positive integer small enough to be an
    array size.  An exception that leaves [optimal_power] leaves the cell
    before anything is printed. *)
Definition example_cell (n : Z) : M unit :=
  let a_val := example_coefficients n in
  let b_val := example_coefficients n in
  let P_tot := 0.5%float in
  let W_tot := 1%float in
  r <- optimal_power refuses solve n a_val b_val
                     (Some P_tot) (Some W_tot) ;;
  let '(status, utility, power, bandwidth) := r in
  print ("Status: " ++ status) ;;;
  print ("Optimal utility value = " ++ format_4g utility) ;;;
  print ("Optimal power level:" ++ newline ++ format_array power) ;;;
  print ("Optimal bandwidth:" ++ newline ++ format_array bandwidth).
End ExampleCell.

(** * Properties *)

(** ** Running the model *)

Example run_mismatch :
  optimal_power cvxpy_refuses sample_solver 5
                [2%float; 3%float] [2%float] None None
  = (Returned failure_sentinel, [Print same_length_message]).
Proof. reflexivity. Qed.

Example run_single_channel :
  fst (optimal_power cvxpy_refuses sample_solver 1 [2%float] [2%float]
                     (Some 0.5%float) None)
  = Returned ("optimal"%string, PyFloat 2.5%float,
              PyArray [0.5%float], PyArray [1%float]).
Proof. reflexivity. Qed.

Example run_nonpositive_coefficients :
  snd (optimal_power cvxpy_refuses sample_solver 2
                     [(-1)%float; 0%float] [0%float; (-2)%float]
                     None None)
  = main_path_events [(-1)%float; 0%float] [0%float; (-2)%float]
      (formulate 0%float [(-1)%float; 0%float] [0%float; (-2)%float]
                 1%float 1%float).
Proof. reflexivity. Qed.

Example run_infinite_coefficient :
  optimal_power cvxpy_refuses sample_solver 1
                [2%float] [infinity] None None
  = (Raised parameter_value_error,
     creation_events [2%float] ++ [SetValue Cp.alpha [2%float]]).
Proof. reflexivity. Qed.

Example run_solver_failure :
  optimal_power cvxpy_refuses failing_solver 1 [2%float] [2%float] None None
  = (Raised solver_error,
     main_path_events [2%float] [2%float]
       (formulate 0%float [2%float] [2%float] 1%float 1%float)).
Proof. reflexivity. Qed.

Example nan_is_scalar : PyFloat nan <> PyArray [nan; nan].
Proof. discriminate. Qed.

(** The library accepts exactly the arrays without NaN and without
    infinite entries. *)
Lemma cvxpy_accepts_iff_finite (v : list float) :
  cvxpy_refuses v = None <-> Forall (fun x => is_finite x = true) v.
Proof.
  unfold cvxpy_refuses. rewrite Forall_forall, <- forallb_forall.
  destruct (forallb is_finite v); split; intros H;
    reflexivity || discriminate H.
Qed.

(** ** The paths of [optimal_power] *)

Section Paths.
Variable refuses : list float -> option PyExn.
Variable solve : Cp.Problem float -> Outcome Solved.
Variables (n : Z) (a_val b_val : list float) (P_tot W_tot : float).

Lemma body_mismatch :
  length a_val <> length b_val ->
  optimal_power_body refuses solve n a_val b_val P_tot W_tot
  = (Returned failure_sentinel, [Print same_length_message]).
Proof.
  intros Hne. unfold optimal_power_body.
  apply Nat.eqb_neq in Hne. rewrite Hne. reflexivity.
Qed.

(** With vectors of one length the run stops at the first assignment the
    library refuses, or goes on to the solve step and ends as it ends. *)
Lemma body_equal_length :
  length a_val = length b_val ->
  let prob := formulate 0%float a_val b_val P_tot W_tot in
  optimal_power_body refuses solve n a_val b_val P_tot W_tot
  = match refuses a_val, refuses b_val with
    | Some e, _ => (Raised e, creation_events a_val)
    | None, Some e =>
        (Raised e, creation_events a_val ++ [SetValue Cp.alpha a_val])
    | None, None =>
        (match solve prob with
         | Returned sol =>
             Returned (status sol, PyFloat (- value sol)%float,
                       var_value sol Cp.P, var_value sol Cp.W)
         | Raised e => Raised e
         end,
         main_path_events a_val b_val prob)
    end.
Proof.
  intros Heq. cbv zeta. unfold optimal_power_body.
  apply Nat.eqb_eq in Heq. rewrite Heq.
  unfold assign_value, prob_solve, formulate, objective_of.
  destruct (refuses a_val) as [ea|]; [reflexivity|].
  destruct (refuses b_val) as [eb|]; [reflexivity|].
  cbn -[R_expr constraints_of].
  destruct (solve _) as [sol|e]; reflexivity.
Qed.

Lemma body_equal_length_accepted :
  length a_val = length b_val ->
  refuses a_val = None -> refuses b_val = None ->
  let prob := formulate 0%float a_val b_val P_tot W_tot in
  optimal_power_body refuses solve n a_val b_val P_tot W_tot
  = (match solve prob with
     | Returned sol =>
         Returned (status sol, PyFloat (- value sol)%float,
                   var_value sol Cp.P, var_value sol Cp.W)
     | Raised e => Raised e
     end,
     main_path_events a_val b_val prob).
Proof.
  intros Heq Ha Hb. cbv zeta.
  rewrite body_equal_length by exact Heq. cbv zeta.
  rewrite Ha, Hb. reflexivity.
Qed.

Lemma body_log :
  snd (optimal_power_body refuses solve n a_val b_val P_tot W_tot)
  = if (length a_val =? length b_val)%nat
    then match refuses a_val, refuses b_val with
         | Some _, _ => creation_events a_val
         | None, Some _ =>
             creation_events a_val ++ [SetValue Cp.alpha a_val]
         | None, None =>
             main_path_events a_val b_val
               (formulate 0%float a_val b_val P_tot W_tot)
         end
    else [Print same_length_message].
Proof.
  destruct (Nat.eqb_spec (length a_val) (length b_val)) as [Heq | Hne].
  - rewrite body_equal_length by exact Heq. cbv zeta.
    destruct (refuses a_val), (refuses b_val); reflexivity.
  - rewrite body_mismatch by exact Hne. reflexivity.
Qed.
End Paths.

(** C1.  The failure path (the message is printed and the sentinel
    ('failed', NaN, NaN, NaN) is returned) is taken exactly when [a_val]
    and [b_val] differ in length, whatever [n], the entries of the vectors,
    the totals, the library's setter and the solver are; on that path the
    call returns and raises nothing. *)
Theorem failure_path_iff_length_mismatch
        (refuses : list float -> option PyExn)
        (solve : Cp.Problem float -> Outcome Solved) (n : Z)
        (a_val b_val : list float) (P_tot W_tot : option float) :
  takes_failure_path (optimal_power refuses solve n a_val b_val P_tot W_tot)
  <-> length a_val <> length b_val.
Proof.
  unfold takes_failure_path, optimal_power. split.
  - intros Hrun Heq.
    rewrite body_equal_length in Hrun by exact Heq. cbv zeta in Hrun.
    destruct (refuses a_val), (refuses b_val); discriminate Hrun.
  - intros Hne. apply body_mismatch. exact Hne.
Qed.

Lemma failure_path_iff_length_mismatch_witness :
  takes_failure_path
    (optimal_power cvxpy_refuses sample_solver 5
                   [2%float; 3%float] [2%float] None None).
Proof.
  apply (proj2 (failure_path_iff_length_mismatch
                  cvxpy_refuses sample_solver 5
                  [2%float; 3%float] [2%float] None None)).
  simpl. discriminate.
Defined.







(** C5 (as stated it fails).  A call with vectors of different lengths
    writes a line to standard output. *)
Lemma failure_path_prints :
  stdout (snd (optimal_power cvxpy_refuses sample_solver 5
                             [2%float; 3%float] [2%float] None None))
  <> [].
Proof. simpl. discriminate. Qed.

(** C5 (amended).  With vectors of one length the only effects are the
    creation of the two variables and the two parameters, the assignment
    of their values, the creation of the problem and one solve, in this
    order and up to the statement at which the library raises, if it
    does, and nothing is written; with vectors of different lengths the
    only effect is one line written to standard output, the message
    'alpha and beta vectors must have same length!'. *)
Theorem effects_of_a_call
        (refuses : list float -> option PyExn)
        (solve : Cp.Problem float -> Outcome Solved) (n : Z)
        (a_val b_val : list float) (P_tot W_tot : option float) :
  let log := snd (optimal_power refuses solve n a_val b_val P_tot W_tot) in
  log = (if (length a_val =? length b_val)%nat
         then match refuses a_val, refuses b_val with
              | Some _, _ => creation_events a_val
              | None, Some _ =>
                  creation_events a_val ++ [SetValue Cp.alpha a_val]
              | None, None =>
                  main_path_events a_val b_val
                    (formulate 0%float a_val b_val
                       (bound_to P_tot_default P_tot)
                       (bound_to W_tot_default W_tot))
              end
         else [Print same_length_message])
  /\ stdout log = (if (length a_val =? length b_val)%nat
                   then []
                   else [same_length_message]).
Proof.
  cbv zeta. unfold optimal_power. rewrite body_log.
  destruct (length a_val =? length b_val)%nat; [|split; reflexivity].
  destruct (refuses a_val), (refuses b_val); split; reflexivity.
Qed.

(** C6 (as stated it fails).  Two vectors of one length and a solver that
    fails: no status is returned, the solver's exception leaves the
    call. *)
Lemma solver_failure_returns_no_status :
  fst (optimal_power cvxpy_refuses failing_solver 1
                     [2%float] [2%float] None None)
  = Raised solver_error.
Proof. reflexivity. Qed.

(** C6 (amended).  With vectors of one length whose values the library
    accepts, the solver is called once, on the constructed problem, and
    its outcome is passed on unchanged: when it returns, the status of the
    returned tuple is the status it reported, and when it raises, its
    exception leaves the call. *)
Theorem status_is_the_solver_status
        (refuses : list float -> option PyExn)
        (solve : Cp.Problem float -> Outcome Solved) (n : Z)
        (a_val b_val : list float) (P_tot W_tot : option float) :
  length a_val = length b_val ->
  refuses a_val = None -> refuses b_val = None ->
  let run := optimal_power refuses solve n a_val b_val P_tot W_tot in
  let prob := formulate 0%float a_val b_val
                (bound_to P_tot_default P_tot)
                (bound_to W_tot_default W_tot) in
  solver_calls (snd run) = [prob]
  /\ (forall sol, solve prob = Returned sol ->
        exists r, fst run = Returned r /\ status_of r = status sol)
  /\ (forall e, solve prob = Raised e -> fst run = Raised e).
Proof.
  intros Heq Ha Hb. cbv zeta. unfold optimal_power.
  rewrite body_equal_length_accepted by assumption. cbv zeta.
  split; [reflexivity|]. split.
  - intros sol Hsol. simpl. rewrite Hsol. eexists. split; reflexivity.
  - intros e He. simpl. rewrite He. reflexivity.
Qed.

Lemma status_is_the_solver_status_witness :
  let run := optimal_power cvxpy_refuses infeasible_solver 3
                           [2%float] [2%float] None None in
  length (solver_calls (snd run)) = 1%nat
  /\ exists r, fst run = Returned r /\ status_of r = "infeasible"%string.
Proof.
  destruct (status_is_the_solver_status
              cvxpy_refuses infeasible_solver 3 [2%float] [2%float]
              None None eq_refl eq_refl eq_refl)
    as [Hcalls [Hret _]].
  cbv zeta. rewrite Hcalls. split; [reflexivity|].
  exact (Hret _ eq_refl).
Defined.

(** C7.  The signature is (n, a_val, b_val, P_tot=1.0, W_tot=1.0): a call
    that leaves out the two totals, or one of them, is the call that passes
    1.0 for what was left out. *)
Theorem totals_default_to_one
        (refuses : list float -> option PyExn)
        (solve : Cp.Problem float -> Outcome Solved) (n : Z)
        (a_val b_val : list float) (P_tot W_tot : float) :
  optimal_power refuses solve n a_val b_val None None
  = optimal_power refuses solve n a_val b_val (Some 1%float) (Some 1%float)
  /\ optimal_power refuses solve n a_val b_val (Some P_tot) None
     = optimal_power refuses solve n a_val b_val
                     (Some P_tot) (Some 1%float)
  /\ optimal_power refuses solve n a_val b_val None (Some W_tot)
     = optimal_power refuses solve n a_val b_val
                     (Some 1%float) (Some W_tot).
Proof. repeat split. Qed.

(** C9.  The argument [n] is not used: two calls that differ in [n] alone
    end in the same outcome and perform the same events (so build the same
    problem), and every variable and parameter is created with the size
    [len(a_val)]. *)
Theorem argument_n_is_ignored
        (refuses : list float -> option PyExn)
        (solve : Cp.Problem float -> Outcome Solved) (n n' : Z)
        (a_val b_val : list float) (P_tot W_tot : option float) :
  optimal_power refuses solve n a_val b_val P_tot W_tot
  = optimal_power refuses solve n' a_val b_val P_tot W_tot
  /\ Forall (fun e => forall k, event_shape e = Some k -> k = length a_val)
            (snd (optimal_power refuses solve n a_val b_val P_tot W_tot)).
Proof.
  split; [reflexivity|].
  unfold optimal_power. rewrite body_log.
  destruct (length a_val =? length b_val)%nat;
    [destruct (refuses a_val), (refuses b_val)|];
    repeat constructor; simpl; congruence.
Qed.

(** C10.  With vectors of different lengths the run consists of the one
    [print]: no variable, parameter or problem is created and the solver
    is not called (the outcome is the same for every library and every
    solver), the call returns, and the three placeholders are the scalar
    NaN, not arrays. *)
Theorem failure_path_builds_nothing
        (refuses : list float -> option PyExn)
        (solve : Cp.Problem float -> Outcome Solved) (n : Z)
        (a_val b_val : list float) (P_tot W_tot : option float) :
  length a_val <> length b_val ->
  let run := optimal_power refuses solve n a_val b_val P_tot W_tot in
  existsb is_library_call (snd run) = false /\
  problems_built (snd run) = [] /\
  solver_calls (snd run) = [] /\
  (forall refuses' solve',
      optimal_power refuses' solve' n a_val b_val P_tot W_tot = run) /\
  exists r,
    fst run = Returned r /\
    utility_of r = PyFloat nan /\
    power_of r = PyFloat nan /\
    bandwidth_of r = PyFloat nan /\
    (forall xs, power_of r <> PyArray xs /\ bandwidth_of r <> PyArray xs).
Proof.
  intros Hne. cbv zeta. unfold optimal_power.
  rewrite body_mismatch by exact Hne.
  split; [reflexivity|]. split; [reflexivity|]. split; [reflexivity|].
  split; [intros refuses' solve'; apply body_mismatch; exact Hne|].
  exists failure_sentinel.
  repeat split; try reflexivity; discriminate.
Qed.

Lemma failure_path_builds_nothing_witness :
  let run := optimal_power cvxpy_refuses sample_solver 5
                           [2%float; 3%float] [2%float] None None in
  solver_calls (snd run) = []
  /\ exists r, fst run = Returned r /\ power_of r = PyFloat nan.
Proof.
  assert (Hne : length [2%float; 3%float] <> length [2%float])
    by (simpl; discriminate).
  destruct (failure_path_builds_nothing cvxpy_refuses sample_solver 5
              [2%float; 3%float] [2%float] None None Hne)
    as [_ [_ [Hcalls [_ [r [Hr [_ [Hp _]]]]]]]].
  split; [exact Hcalls|]. exists r. split; [exact Hr | exact Hp].
Defined.

(** ** The reformulated objective over the reals *)

Section Reformulation.
Import Sem.
Local Open Scope R_scope.

Lemma ln_2_pos : 0 < ln 2.
Proof. rewrite <- ln_1. apply ln_increasing; lra. Qed.

Lemma ln_2_lt_1 : ln 2 < 1.
Proof.
  rewrite <- (ln_exp 1). apply ln_increasing; [lra|].
  pose proof (exp_ineq1 1). lra.
Qed.

Lemma spec_rate_in_nats (a b p w : R) :
  ln 2 * spec_rate a b p w = rate_nats a b p w.
Proof.
  unfold spec_rate, rate_nats, log2.
  pose proof ln_2_pos. field. lra.
Qed.

Lemma R_entry_nats (a b p w : R) :
  0 < a -> 0 < b -> 0 < p -> 0 < w ->
  R_entry a b p w = - rate_nats a b p w.
Proof.
  intros Ha Hb Hp Hw. unfold R_entry, rate_nats, kl_div.
  assert (Hpos : 0 < 1 + b * p / w).
  { assert (0 < b * p / w) by (apply Rdiv_lt_0_compat; nra). lra. }
  replace (a * w / (a * (w + b * p))) with (/ (1 + b * p / w))
    by (field; repeat split; nra).
  rewrite ln_Rinv by exact Hpos. ring.
Qed.

(** C2 (as stated it fails).  For α = β = W = P = 1 the reformulated
    term is −ln 2, and the negated rate −log2(2) is −1. *)
Lemma identity_fails_for_unit_channel :
  - spec_rate 1 1 1 1 <> kl_div (1 * 1) (1 * (1 + 1 * 1)) - 1 * 1 * 1.
Proof.
  assert (Hrate : spec_rate 1 1 1 1 = 1).
  { unfold spec_rate, log2. replace (1 + 1 * 1 / 1) with 2 by field.
    pose proof ln_2_pos. field. lra. }
  assert (Hkl : kl_div (1 * 1) (1 * (1 + 1 * 1)) - 1 * 1 * 1 = - ln 2).
  { unfold kl_div. replace (1 * 1 / (1 * (1 + 1 * 1))) with (/ 2) by field.
    rewrite ln_Rinv by lra. ring. }
  rewrite Hrate, Hkl. pose proof ln_2_lt_1. lra.
Qed.

(** C2 (amended).  For positive α, β, W, P the reformulated term
    kl_div(α·W, α·(W + β·P)) − α·β·P, which is the entry of the vector
    [R] the code builds, equals −α·W·ln(1 + β·P/W): the negated rate
    with the natural logarithm, that is −ln 2 times the rate R of the
    stated objective. *)
Theorem reformulated_term_is_negated_rate_in_nats (a b p w : R) :
  0 < a -> 0 < b -> 0 < p -> 0 < w ->
  R_entry a b p w = kl_div (a * w) (a * (w + b * p)) - a * b * p
  /\ R_entry a b p w = - (a * w * ln (1 + b * p / w))
  /\ R_entry a b p w = - (ln 2 * spec_rate a b p w).
Proof.
  intros Ha Hb Hp Hw. split; [unfold R_entry; ring|].
  rewrite spec_rate_in_nats.
  split; apply R_entry_nats; assumption.
Qed.

Lemma reformulated_term_is_negated_rate_in_nats_witness :
  R_entry 1 1 1 1 = - (ln 2 * spec_rate 1 1 1 1).
Proof.
  apply (reformulated_term_is_negated_rate_in_nats 1 1 1 1); lra.
Defined.

(** The worked example puts the whole budget (P = 0.5, W = 1) on the
    channel with α = β = 2.8.  Its rate in bits exceeds 2.8 and its rate
    in nats is below 2.8, so the utility 2.451 of the notebook's output
    cell is a value in nats. *)
Lemma best_channel_rate_in_bits : 2.8 < spec_rate 2.8 2.8 0.5 1.
Proof.
  unfold spec_rate, log2. replace (1 + 2.8 * 0.5 / 1) with 2.4 by lra.
  pose proof ln_2_pos as H2.
  assert (Hlt : ln 2 < ln 2.4) by (apply ln_increasing; lra).
  assert (H1 : 1 < ln 2.4 / ln 2).
  { apply (Rmult_lt_reg_r (ln 2)); [exact H2|].
    replace (ln 2.4 / ln 2 * ln 2) with (ln 2.4) by (field; lra). lra. }
  nra.
Qed.

Lemma best_channel_rate_in_nats : rate_nats 2.8 2.8 0.5 1 < 2.8.
Proof.
  unfold rate_nats. replace (1 + 2.8 * 0.5 / 1) with 2.4 by lra.
  assert (Hq : 1.25 < exp (1 / 4)) by (pose proof (exp_ineq1 (1 / 4)); lra).
  assert (He : 2.4 < exp 1).
  { replace (exp 1) with (exp (1 / 4 + 1 / 4 + (1 / 4 + 1 / 4)))
      by (f_equal; field).
    rewrite !exp_plus.
    assert (Hh : 1.5625 < exp (1 / 4) * exp (1 / 4)) by nra.
    nra. }
  assert (Hln : ln 2.4 < ln (exp 1)) by (apply ln_increasing; lra).
  rewrite ln_exp in Hln. nra.
Qed.

(** The vector [R] of lines 73-75 denotes [R_entry] channel by channel. *)
Lemma zip_R_entry (al bl pl wl : list R) :
  zip_with Rminus
    (zip_with kl_div (zip_with Rmult al wl)
       (zip_with Rmult al (zip_with Rplus wl (zip_with Rmult bl pl))))
    (zip_with Rmult al (zip_with Rmult bl pl))
  = map (fun c => let '(a, b, p, w) := c in R_entry a b p w)
        (channels al bl pl wl).
Proof.
  revert bl pl wl.
  induction al as [|a al IH]; intros bl pl wl; [reflexivity|].
  destruct bl as [|b bl], pl as [|p pl], wl as [|w wl];
    try reflexivity.
  simpl. rewrite IH. reflexivity.
Qed.

Variables (a_val b_val : list R) (P_tot W_tot : R).
Variable env : Cp.Var -> list R.

(** The value minimised is the sum over the channels of the
    reformulated terms. *)
Lemma cost_of_formulation :
  cost env (formulate 0 a_val b_val P_tot W_tot)
  = Some (Scalar
            (total (map (fun c => let '(a, b, p, w) := c in
                                  R_entry a b p w)
                        (channels a_val b_val (env Cp.P) (env Cp.W))))).
Proof.
  unfold cost, formulate, objective_of, R_expr. simpl.
  rewrite zip_R_entry. reflexivity.
Qed.

(** The constraints say that the allocations are non-negative and add
    up to the totals. *)
Lemma feasible_formulation :
  feasible env (formulate 0 a_val b_val P_tot W_tot)
  <-> Forall (fun p => 0 <= p) (env Cp.P)
      /\ Forall (fun w => 0 <= w) (env Cp.W)
      /\ total (env Cp.P) = P_tot
      /\ total (env Cp.W) = W_tot.
Proof.
  unfold feasible, formulate, constraints_of. simpl. split.
  - intros H.
    inversion H as [|c1 l1 H1 T1]; subst.
    inversion T1 as [|c2 l2 H2 T2]; subst.
    inversion T2 as [|c3 l3 H3 T3]; subst.
    inversion T3 as [|c4 l4 H4 T4]; subst.
    simpl in H1, H2, H3, H4.
    repeat split; try lra.
    + eapply Forall_impl; [|exact H1]. simpl. intros; lra.
    + eapply Forall_impl; [|exact H2]. simpl. intros; lra.
  - intros [HP [HW [HPt HWt]]].
    repeat constructor; simpl; try lra.
    + eapply Forall_impl; [|exact HP]. simpl. intros; lra.
    + eapply Forall_impl; [|exact HW]. simpl. intros; lra.
Qed.
End Reformulation.

(** ** The formulated problem over the reals: range and optimum *)

Section Allocations.
Import Sem Alloc.
Local Open Scope R_scope.

(** *** Logarithm facts *)

Lemma ln_tangent (x c : R) : 0 < x -> 0 < c -> ln x <= ln c + (x - c) / c.
Proof.
  intros Hx Hc.
  assert (Hq : 0 < x / c) by (apply Rdiv_lt_0_compat; assumption).
  pose proof (exp_ineq1_le (ln (x / c))) as He.
  rewrite exp_ln in He by exact Hq.
  unfold Rdiv in He at 1.
  rewrite ln_mult in He by (try apply Rinv_0_lt_compat; assumption).
  rewrite ln_Rinv in He by exact Hc.
  replace ((x - c) / c) with (x / c - 1) by (field; lra). lra.
Qed.

Lemma ln_monotone (x y : R) : 0 < x -> x <= y -> ln x <= ln y.
Proof.
  intros Hx [Hlt | ->]; [|lra].
  left. apply ln_increasing; assumption.
Qed.

Lemma ln_one_plus_nonneg (x : R) : 0 <= x -> 0 <= ln (1 + x).
Proof. intros Hx. rewrite <- ln_1. apply ln_monotone; lra. Qed.

(** *** One channel *)

Lemma R_entry_boundary (a b p w : R) :
  0 < a -> 0 < b -> 0 <= p -> 0 <= w ->
  R_entry a b p w = - rate_nats a b p w.
Proof.
  intros Ha Hb Hp [Hw | <-].
  - unfold R_entry, rate_nats, kl_div.
    assert (Hpos : 0 < 1 + b * p / w).
    { assert (0 <= b * p / w) by (apply Rle_mult_inv_pos; nra). lra. }
    replace (a * w / (a * (w + b * p))) with (/ (1 + b * p / w))
      by (field; repeat split; nra).
    rewrite ln_Rinv by exact Hpos. ring.
  - unfold R_entry, rate_nats, kl_div. ring.
Qed.

Lemma rate_nats_nonneg (a b p w : R) :
  0 < a -> 0 < b -> 0 <= p -> 0 <= w -> 0 <= rate_nats a b p w.
Proof.
  intros Ha Hb Hp [Hw | <-]; unfold rate_nats; [|lra].
  assert (0 <= ln (1 + b * p / w)).
  { apply ln_one_plus_nonneg. apply Rle_mult_inv_pos; nra. }
  apply Rmult_le_pos; nra.
Qed.

Lemma rate_nats_more_power (a b p p' w : R) :
  0 < a -> 0 < b -> 0 <= p <= p' -> 0 <= w ->
  rate_nats a b p w <= rate_nats a b p' w.
Proof.
  intros Ha Hb [Hp Hpp] [Hw | <-]; unfold rate_nats; [|lra].
  apply Rmult_le_compat_l; [nra|].
  assert (0 <= b * p / w) by (apply Rle_mult_inv_pos; nra).
  apply ln_monotone; [lra|].
  apply Rplus_le_compat_l. unfold Rdiv.
  apply Rmult_le_compat_r; [left; apply Rinv_0_lt_compat; exact Hw | nra].
Qed.

Lemma rate_nats_tangent (a b p w A B c : R) :
  0 < a <= A -> 0 < b <= B -> 0 <= p -> 0 <= w -> 0 < c ->
  rate_nats a b p w <= A * (w * ln c + (w + B * p - c * w) / c).
Proof.
  intros [Ha HaA] [Hb HbB] Hp [Hw | <-] Hc; unfold rate_nats.
  - set (x := 1 + b * p / w). set (x' := 1 + B * p / w).
    assert (Hbp : 0 <= b * p / w) by (apply Rle_mult_inv_pos; nra).
    assert (Hxx : x <= x').
    { unfold x, x'. apply Rplus_le_compat_l. unfold Rdiv.
      apply Rmult_le_compat_r; [left; apply Rinv_0_lt_compat; exact Hw | nra]. }
    assert (Hx : 0 < x) by (unfold x; lra).
    assert (H0 : 0 <= ln x) by (apply ln_one_plus_nonneg; exact Hbp).
    assert (H1 : ln x <= ln x') by (apply ln_monotone; assumption).
    assert (H2 : ln x' <= ln c + (x' - c) / c) by (apply ln_tangent; lra).
    replace ((w + B * p - c * w) / c) with (w * ((x' - c) / c))
      by (unfold x'; field; lra).
    replace (A * (w * ln c + w * ((x' - c) / c)))
      with (A * w * (ln c + (x' - c) / c)) by ring.
    apply Rle_trans with (A * w * ln x).
    + apply Rmult_le_compat_r; [exact H0 | nra].
    + apply Rmult_le_compat_l; [nra | lra].
  - replace (a * 0 * ln (1 + b * p / 0)) with 0 by ring.
    replace (A * (0 * ln c + (0 + B * p - c * 0) / c)) with (A * (B * p / c))
      by (field; lra).
    apply Rmult_le_pos; [lra|]. apply Rle_mult_inv_pos; nra.
Qed.

Lemma scaled_ratio (t x y : R) : t <> 0 -> (t * x) / (t * y) = x / y.
Proof.
  intros Ht. unfold Rdiv. rewrite Rinv_mult.
  replace (t * x * (/ t * / y)) with (t * / t * (x * / y)) by ring.
  rewrite Rinv_r by exact Ht. ring.
Qed.

Lemma R_entry_scaled (t a b p w : R) :
  t <> 0 -> R_entry a b (t * p) (t * w) = t * R_entry a b p w.
Proof.
  intros Ht. unfold R_entry, kl_div.
  replace (a * (t * w) / (a * (t * w + b * (t * p))))
    with (a * w / (a * (w + b * p))).
  - ring.
  - rewrite <- (scaled_ratio t (a * w) (a * (w + b * p))) by exact Ht.
    f_equal; ring.
Qed.

(** *** Lists of channels *)

Lemma total_app (l1 l2 : list R) : total (l1 ++ l2) = total l1 + total l2.
Proof.
  unfold total. induction l1 as [|x l1 IH]; simpl; [lra | rewrite IH; lra].
Qed.

Lemma total_nonneg (l : list R) : Forall (fun x => 0 <= x) l -> 0 <= total l.
Proof.
  unfold total. induction 1 as [|x l Hx _ IH]; simpl; lra.
Qed.

Lemma total_scaled (t : R) (l : list R) :
  total (map (Rmult t) l) = t * total l.
Proof.
  unfold total. induction l as [|x l IH]; simpl; [ring | rewrite IH; ring].
Qed.

Lemma total_repeat_zero (k : nat) : total (repeat 0 k) = 0.
Proof. unfold total. induction k as [|k IH]; simpl; lra. Qed.

Lemma total_one_hot (k m : nat) (x : R) : total (one_hot k m x) = x.
Proof.
  unfold one_hot. rewrite total_app, total_repeat_zero.
  change (x :: repeat 0 m) with ([x] ++ repeat 0 m).
  rewrite total_app, total_repeat_zero. unfold total. simpl. lra.
Qed.

Lemma one_hot_nonneg (k m : nat) (x : R) :
  0 <= x -> Forall (fun y => 0 <= y) (one_hot k m x).
Proof.
  intros Hx. unfold one_hot. apply Forall_app.
  split; [|constructor; [exact Hx|]];
    apply Forall_forall; intros y Hy; apply repeat_spec in Hy; lra.
Qed.

Lemma length_one_hot (k m : nat) (x : R) :
  length (one_hot k m x) = (k + S m)%nat.
Proof.
  unfold one_hot. rewrite length_app. simpl.
  rewrite !repeat_length. reflexivity.
Qed.

Lemma channels_in_domain (al bl pl wl : list R) :
  Forall (fun a => 0 < a) al -> Forall (fun b => 0 < b) bl ->
  Forall (fun p => 0 <= p) pl -> Forall (fun w => 0 <= w) wl ->
  Forall in_domain (channels al bl pl wl).
Proof.
  intros Ha. revert bl pl wl.
  induction Ha as [|a al Ha0 Ha IH]; intros bl pl wl Hb Hp Hw; [constructor|].
  destruct Hb as [|b bl Hb0 Hb]; [constructor|].
  destruct Hp as [|p pl Hp0 Hp]; [constructor|].
  destruct Hw as [|w wl Hw0 Hw]; [constructor|].
  simpl. constructor; [repeat split; assumption | apply IH; assumption].
Qed.

Lemma channels_dominated (A B : R) (al bl pl wl : list R) :
  Forall (fun a => a <= A) al -> Forall (fun b => b <= B) bl ->
  Forall (dominated A B) (channels al bl pl wl).
Proof.
  intros Ha. revert bl pl wl.
  induction Ha as [|a al Ha0 Ha IH]; intros bl pl wl Hb; [constructor|].
  destruct Hb as [|b bl Hb0 Hb]; [constructor|].
  destruct pl as [|p pl]; [constructor|].
  destruct wl as [|w wl]; [constructor|].
  simpl. constructor; [split; assumption | apply IH; assumption].
Qed.

Lemma channels_power (al bl pl wl : list R) :
  length al = length pl -> length bl = length pl -> length wl = length pl ->
  map chan_power (channels al bl pl wl) = pl.
Proof.
  revert al bl wl. induction pl as [|p pl IH]; intros al bl wl Ha Hb Hw.
  - destruct al, bl, wl; try discriminate; reflexivity.
  - destruct al, bl, wl; try discriminate. simpl. f_equal.
    apply IH; simpl in *; congruence.
Qed.

Lemma channels_bandwidth (al bl pl wl : list R) :
  length al = length wl -> length bl = length wl -> length pl = length wl ->
  map chan_bandwidth (channels al bl pl wl) = wl.
Proof.
  revert al bl pl. induction wl as [|w wl IH]; intros al bl pl Ha Hb Hp.
  - destruct al, bl, pl; try discriminate; reflexivity.
  - destruct al, bl, pl; try discriminate. simpl. f_equal.
    apply IH; simpl in *; congruence.
Qed.

Lemma channels_app (al1 bl1 pl1 wl1 al2 bl2 pl2 wl2 : list R) :
  length bl1 = length al1 -> length pl1 = length al1 ->
  length wl1 = length al1 ->
  channels (al1 ++ al2) (bl1 ++ bl2) (pl1 ++ pl2) (wl1 ++ wl2)
  = channels al1 bl1 pl1 wl1 ++ channels al2 bl2 pl2 wl2.
Proof.
  revert bl1 pl1 wl1.
  induction al1 as [|a al1 IH]; intros bl1 pl1 wl1 Hb Hp Hw.
  - destruct bl1, pl1, wl1; try discriminate. reflexivity.
  - destruct bl1, pl1, wl1; try discriminate. simpl. f_equal.
    apply IH; simpl in *; congruence.
Qed.

Lemma channels_scaled (t : R) (al bl pl wl : list R) :
  t <> 0 ->
  total (map chan_entry
           (channels al bl (map (Rmult t) pl) (map (Rmult t) wl)))
  = t * total (map chan_entry (channels al bl pl wl)).
Proof.
  intros Ht. revert bl pl wl. unfold total.
  induction al as [|a al IH]; intros bl pl wl; [simpl; ring|].
  destruct bl as [|b bl], pl as [|p pl], wl as [|w wl]; simpl; try ring.
  rewrite IH, R_entry_scaled by exact Ht. ring.
Qed.

Lemma idle_channels_cost_nothing (al bl : list R) (k : nat) :
  total (map chan_entry (channels al bl (repeat 0 k) (repeat 0 k))) = 0.
Proof.
  revert bl k. unfold total.
  induction al as [|a al IH]; intros bl k; [reflexivity|].
  destruct bl as [|b bl], k as [|k]; try reflexivity.
  simpl. rewrite IH. unfold R_entry, kl_div. ring.
Qed.

Lemma total_entries_negated_rate (cs : list (R * R * R * R)) :
  Forall in_domain cs -> total (map chan_entry cs) = - total_rate cs.
Proof.
  unfold total_rate, total.
  induction 1 as [|[[[a b] p] w] cs Hc _ IH]; simpl; [lra|].
  destruct Hc as (Ha & Hb & Hp & Hw).
  rewrite IH, R_entry_boundary by assumption. ring.
Qed.

Lemma total_rate_nonneg (cs : list (R * R * R * R)) :
  Forall in_domain cs -> 0 <= total_rate cs.
Proof.
  unfold total_rate, total.
  induction 1 as [|[[[a b] p] w] cs Hc _ IH]; simpl; [lra|].
  destruct Hc as (Ha & Hb & Hp & Hw).
  pose proof (rate_nats_nonneg a b p w Ha Hb Hp Hw). lra.
Qed.

Lemma total_rate_tangent (A B c : R) (cs : list (R * R * R * R)) :
  Forall in_domain cs -> Forall (dominated A B) cs -> 0 < c ->
  total_rate cs
  <= A * (total (map chan_bandwidth cs) * ln c
          + (total (map chan_bandwidth cs)
             + B * total (map chan_power cs)
             - c * total (map chan_bandwidth cs)) / c).
Proof.
  intros Hcs Hdom Hc. unfold total_rate, total.
  induction Hcs as [|[[[a b] p] w] cs Hch _ IH].
  - simpl. right. field. lra.
  - inversion Hdom as [|c0 cs0 Hd Hdom']; subst.
    destruct Hd as (HaA & HbB). destruct Hch as (Ha & Hb & Hp & Hw).
    pose proof (rate_nats_tangent a b p w A B c
                  (conj Ha HaA) (conj Hb HbB) Hp Hw Hc) as H1.
    specialize (IH Hdom'). simpl.
    set (Wr := fold_right Rplus 0 (map chan_bandwidth cs)) in *.
    set (Pr := fold_right Rplus 0 (map chan_power cs)) in *.
    replace (A * ((w + Wr) * ln c
                  + (w + Wr + B * (p + Pr) - c * (w + Wr)) / c))
      with (A * (w * ln c + (w + B * p - c * w) / c)
            + A * (Wr * ln c + (Wr + B * Pr - c * Wr) / c))
      by (field; lra).
    lra.
Qed.

(** *** The cost of an assignment *)

Lemma cost_entries (al bl : list R) (Pt Wt : R) (env : Cp.Var -> list R) :
  cost env (formulate 0 al bl Pt Wt)
  = Some (Scalar
            (total (map chan_entry
                      (channels al bl (env Cp.P) (env Cp.W))))).
Proof. apply cost_of_formulation. Qed.

Lemma feasible_rate_range (al bl : list R) (Pt Wt A B : R)
      (env : Cp.Var -> list R) :
  length bl = length al -> well_shaped env (length al) ->
  Forall (fun a => 0 < a <= A) al -> Forall (fun b => 0 < b <= B) bl ->
  0 < Wt -> feasible env (formulate 0 al bl Pt Wt) ->
  cost env (formulate 0 al bl Pt Wt)
  = Some (Scalar (- total_rate (channels al bl (env Cp.P) (env Cp.W))))
  /\ 0 <= total_rate (channels al bl (env Cp.P) (env Cp.W))
       <= A * Wt * ln (1 + B * Pt / Wt).
Proof.
  intros Lb [LP LW] Ha Hb HW Hfeas.
  apply feasible_formulation in Hfeas as (Hp & Hw & HPt & HWt).
  assert (Hdom : Forall in_domain (channels al bl (env Cp.P) (env Cp.W))).
  { apply channels_in_domain; try assumption.
    - eapply Forall_impl; [|exact Ha]. simpl. intros a H; apply H.
    - eapply Forall_impl; [|exact Hb]. simpl. intros b H; apply H. }
  assert (Hle : Forall (dominated A B)
                       (channels al bl (env Cp.P) (env Cp.W))).
  { apply channels_dominated.
    - eapply Forall_impl; [|exact Ha]. simpl. intros a H; apply H.
    - eapply Forall_impl; [|exact Hb]. simpl. intros b H; apply H. }
  rewrite cost_entries, total_entries_negated_rate by exact Hdom.
  split; [reflexivity|]. split; [apply total_rate_nonneg; exact Hdom|].
  assert (HB : 0 < B).
  { destruct Hb as [|b bl' [Hb0 HbB] _]; [|lra].
    simpl in Lb. rewrite <- Lb in LW.
    destruct (env Cp.W); [|discriminate].
    unfold total in HWt. simpl in HWt. lra. }
  assert (HP : 0 <= Pt) by (rewrite <- HPt; apply total_nonneg; exact Hp).
  set (c := 1 + B * Pt / Wt).
  assert (Hc : 0 < c).
  { unfold c.
    assert (0 <= B * Pt / Wt) by (apply Rle_mult_inv_pos; nra). lra. }
  pose proof (total_rate_tangent A B c _ Hdom Hle Hc) as Hb'.
  rewrite channels_bandwidth in Hb' by congruence.
  rewrite channels_power in Hb' by congruence.
  rewrite HPt, HWt in Hb'.
  assert (Hz : Wt + B * Pt - c * Wt = 0) by (unfold c; field; lra).
  rewrite Hz in Hb'. unfold Rdiv in Hb' at 1. rewrite Rmult_0_l in Hb'.
  replace (A * (Wt * ln c + 0)) with (A * Wt * ln c) in Hb' by ring.
  exact Hb'.
Qed.

(** X1.  For positive coefficients and non-negative allocations the value
    the problem minimises is minus the total rate in nats,
    −Σ α_i·W_i·ln(1 + β_i·P_i/W_i); this includes channels with zero
    bandwidth or zero power, which contribute nothing. *)
Theorem cost_is_negated_total_rate
        (a_val b_val : list R) (P_tot W_tot : R) (env : Cp.Var -> list R) :
  Forall (fun a => 0 < a) a_val -> Forall (fun b => 0 < b) b_val ->
  Forall (fun p => 0 <= p) (env Cp.P) ->
  Forall (fun w => 0 <= w) (env Cp.W) ->
  cost env (formulate 0 a_val b_val P_tot W_tot)
  = Some (Scalar
            (- total_rate (channels a_val b_val (env Cp.P) (env Cp.W)))).
Proof.
  intros Ha Hb Hp Hw.
  rewrite cost_entries, total_entries_negated_rate; [reflexivity|].
  apply channels_in_domain; assumption.
Qed.

Lemma cost_is_negated_total_rate_witness :
  cost (assignment [0; 1] [0; 1]) (formulate 0 [1; 2] [1; 2] 1 1)
  = Some (Scalar (- total_rate (channels [1; 2] [1; 2] [0; 1] [0; 1]))).
Proof.
  apply (cost_is_negated_total_rate [1; 2] [1; 2] 1 1
           (assignment [0; 1] [0; 1]));
    simpl; repeat constructor; lra.
Defined.

Lemma reformulation_in_domain (al bl pl wl : list R) :
  length bl = length al -> length pl = length al -> length wl = length al ->
  Forall (fun a => 0 < a) al -> Forall (fun b => 0 < b) bl ->
  Forall (fun p => 0 <= p) pl -> Forall (fun w => 0 <= w) wl ->
  Forall2 kl_div_finite
    (zip_with Rmult al wl)
    (zip_with Rmult al (zip_with Rplus wl (zip_with Rmult bl pl))).
Proof.
  revert bl pl wl.
  induction al as [|a al IH]; intros bl pl wl Lb Lp Lw Ha Hb Hp Hw.
  - constructor.
  - destruct bl as [|b bl], pl as [|p pl], wl as [|w wl]; try discriminate.
    apply Forall_cons_iff in Ha as [Ha0 Ha].
    apply Forall_cons_iff in Hb as [Hb0 Hb].
    apply Forall_cons_iff in Hp as [Hp0 Hp].
    apply Forall_cons_iff in Hw as [Hw0 Hw].
    simpl. constructor.
    + assert (Hbp : 0 <= b * p) by (apply Rmult_le_pos; lra).
      unfold kl_div_finite. destruct Hw0 as [Hw0 | <-].
      * left. split; apply Rmult_lt_0_compat; lra.
      * right. split; [ring | apply Rmult_le_pos; lra].
    + apply IH; simpl in *; congruence || assumption.
Qed.

(** For positive coefficients, an assignment of the variables' shape that
    satisfies the constraints is a point where the objective is finite. *)
Lemma feasible_in_domain (al bl : list R) (Pt Wt : R)
      (env : Cp.Var -> list R) :
  length bl = length al -> well_shaped env (length al) ->
  Forall (fun a => 0 < a) al -> Forall (fun b => 0 < b) bl ->
  feasible env (formulate 0 al bl Pt Wt) ->
  objective_defined env (formulate 0 al bl Pt Wt).
Proof.
  intros Lb [LP LW] Ha Hb Hfeas.
  apply feasible_formulation in Hfeas as (Hp & Hw & _ & _).
  unfold objective_defined, formulate, objective_of, R_expr. simpl.
  repeat split.
  apply reformulation_in_domain; assumption.
Qed.

(** X2.  The totals are not checked by the code.  For positive
    coefficients, the constructed problem has an assignment that satisfies
    the constraints and at which the objective is finite exactly when both
    totals are non-negative and, for empty coefficient vectors, both
    totals are zero: a negative total, or the default totals with no
    channel, give an infeasible problem. *)
Theorem problem_feasible_iff (a_val b_val : list R) (P_tot W_tot : R) :
  length b_val = length a_val ->
  Forall (fun a => 0 < a) a_val -> Forall (fun b => 0 < b) b_val ->
  (exists env, well_shaped env (length a_val)
               /\ feasible env (formulate 0 a_val b_val P_tot W_tot)
               /\ objective_defined env
                    (formulate 0 a_val b_val P_tot W_tot))
  <-> 0 <= P_tot /\ 0 <= W_tot
      /\ (a_val = [] -> P_tot = 0 /\ W_tot = 0).
Proof.
  intros Lb Ha Hb. split.
  - intros (env & [LP LW] & Hfeas & _).
    apply feasible_formulation in Hfeas as (Hp & Hw & HPt & HWt).
    split; [rewrite <- HPt; apply total_nonneg; exact Hp|].
    split; [rewrite <- HWt; apply total_nonneg; exact Hw|].
    intros ->. simpl in LP, LW.
    destruct (env Cp.P); [|discriminate]. destruct (env Cp.W); [|discriminate].
    unfold total in HPt, HWt. simpl in HPt, HWt. split; congruence.
  - intros (HP & HW & Hempty).
    assert (Hex : exists env,
               well_shaped env (length a_val)
               /\ feasible env (formulate 0 a_val b_val P_tot W_tot)).
    { destruct a_val as [|a al].
      - destruct (Hempty eq_refl) as [-> ->].
        exists (assignment [] []). split; [split; reflexivity|].
        apply feasible_formulation. simpl. repeat split; constructor.
      - exists (assignment (one_hot 0 (length al) P_tot)
                           (one_hot 0 (length al) W_tot)).
        split; [split; simpl; rewrite repeat_length; reflexivity|].
        apply feasible_formulation.
        change (assignment (one_hot 0 (length al) P_tot)
                  (one_hot 0 (length al) W_tot) Cp.P)
          with (one_hot 0 (length al) P_tot).
        change (assignment (one_hot 0 (length al) P_tot)
                  (one_hot 0 (length al) W_tot) Cp.W)
          with (one_hot 0 (length al) W_tot).
        rewrite !total_one_hot.
        repeat split; try apply one_hot_nonneg; assumption. }
    destruct Hex as (env & Hshape & Hfeas).
    exists env. split; [exact Hshape|]. split; [exact Hfeas|].
    apply feasible_in_domain; assumption.
Qed.

Lemma problem_feasible_iff_witness :
  exists env,
    well_shaped env 2
    /\ feasible env (formulate 0 [1; 2] [1; 2] (1 / 2) 1)
    /\ objective_defined env (formulate 0 [1; 2] [1; 2] (1 / 2) 1).
Proof.
  apply (proj2 (problem_feasible_iff [1; 2] [1; 2] (1 / 2) 1
                  eq_refl
                  ltac:(repeat constructor; lra)
                  ltac:(repeat constructor; lra))).
  split; [lra|]. split; [lra|]. discriminate.
Defined.

(** X3.  For coefficients in (0, A] and (0, B] and a positive bandwidth
    total, every feasible assignment has a utility (the negated cost)
    between 0 and A·W_tot·ln(1 + B·P_tot/W_tot). *)
Theorem utility_bounds
        (a_val b_val : list R) (P_tot W_tot A B : R)
        (env : Cp.Var -> list R) :
  length b_val = length a_val -> well_shaped env (length a_val) ->
  Forall (fun a => 0 < a <= A) a_val ->
  Forall (fun b => 0 < b <= B) b_val ->
  0 < W_tot -> feasible env (formulate 0 a_val b_val P_tot W_tot) ->
  exists v,
    cost env (formulate 0 a_val b_val P_tot W_tot) = Some (Scalar v)
    /\ 0 <= - v <= A * W_tot * ln (1 + B * P_tot / W_tot).
Proof.
  intros Lb Hshape Ha Hb HW Hfeas.
  destruct (feasible_rate_range a_val b_val P_tot W_tot A B env
              Lb Hshape Ha Hb HW Hfeas) as [Hcost Hrange].
  eexists. split; [exact Hcost|]. rewrite Ropp_involutive. exact Hrange.
Qed.

Lemma utility_bounds_witness :
  exists v,
    cost (assignment [1; 0] [1 / 2; 1 / 2]) (formulate 0 [1; 2] [1; 2] 1 1)
    = Some (Scalar v)
    /\ 0 <= - v <= 2 * 1 * ln (1 + 2 * 1 / 1).
Proof.
  apply (utility_bounds [1; 2] [1; 2] 1 1 2 2
           (assignment [1; 0] [1 / 2; 1 / 2])).
  - reflexivity.
  - split; reflexivity.
  - repeat constructor; lra.
  - repeat constructor; lra.
  - lra.
  - apply feasible_formulation. simpl. unfold total. simpl.
    repeat split; repeat constructor; lra.
Defined.

(** X4.  When one channel has the largest α and the largest β, giving it
    the whole power and the whole bandwidth is feasible and optimal: the
    cost there is −A·W_tot·ln(1 + B·P_tot/W_tot) and no feasible
    assignment has a smaller cost.  (In the notebook's example this is the
    fifth channel.) *)
Theorem best_channel_is_optimal
        (al1 al2 bl1 bl2 : list R) (A B P_tot W_tot : R) :
  length bl1 = length al1 -> length bl2 = length al2 ->
  Forall (fun a => 0 < a <= A) (al1 ++ A :: al2) ->
  Forall (fun b => 0 < b <= B) (bl1 ++ B :: bl2) ->
  0 <= P_tot -> 0 < W_tot ->
  let prob := formulate 0 (al1 ++ A :: al2) (bl1 ++ B :: bl2) P_tot W_tot in
  let n := length (al1 ++ A :: al2) in
  let best := assignment (one_hot (length al1) (length al2) P_tot)
                         (one_hot (length al1) (length al2) W_tot) in
  well_shaped best n
  /\ feasible best prob
  /\ cost best prob
     = Some (Scalar (- (A * W_tot * ln (1 + B * P_tot / W_tot))))
  /\ forall env, well_shaped env n -> feasible env prob ->
       exists v, cost env prob = Some (Scalar v)
                 /\ - (A * W_tot * ln (1 + B * P_tot / W_tot)) <= v.
Proof.
  intros L1 L2 Ha Hb HP HW. cbv zeta.
  assert (HA : 0 < A).
  { apply Forall_app in Ha as [_ Ha]. inversion Ha; subst. lra. }
  assert (HB : 0 < B).
  { apply Forall_app in Hb as [_ Hb]. inversion Hb; subst. lra. }
  split; [|split; [|split]].
  - split; simpl; rewrite length_one_hot, length_app; reflexivity.
  - apply feasible_formulation. simpl. rewrite !total_one_hot.
    repeat split; try apply one_hot_nonneg; lra.
  - rewrite cost_entries. simpl. unfold one_hot.
    rewrite channels_app by (rewrite ?repeat_length; congruence).
    rewrite map_app, total_app, idle_channels_cost_nothing. simpl.
    change (fold_right Rplus 0 ?l) with (total l).
    unfold total at 1. simpl.
    change (fold_right Rplus 0 ?l) with (total l).
    rewrite idle_channels_cost_nothing.
    rewrite R_entry_boundary by lra. unfold rate_nats. do 2 f_equal. ring.
  - intros env Hshape Hfeas.
    assert (Lb : length (bl1 ++ B :: bl2) = length (al1 ++ A :: al2))
      by (rewrite !length_app; simpl; congruence).
    destruct (feasible_rate_range _ _ P_tot W_tot A B env
                Lb Hshape Ha Hb HW Hfeas) as [Hcost Hrange].
    eexists. split; [exact Hcost|]. lra.
Qed.

Lemma best_channel_is_optimal_witness :
  cost (assignment (one_hot 1 0 1) (one_hot 1 0 1))
       (formulate 0 ([1] ++ 2 :: []) ([1] ++ 2 :: []) 1 1)
  = Some (Scalar (- (2 * 1 * ln (1 + 2 * 1 / 1)))).
Proof.
  assert (Ha : Forall (fun a => 0 < a <= 2) ([1] ++ 2 :: []))
    by (simpl; repeat constructor; lra).
  assert (H0 : 0 <= 1) by lra.
  assert (H1 : 0 < 1) by lra.
  exact (proj1 (proj2 (proj2
           (best_channel_is_optimal [1] [] [1] [] 2 2 1 1
              eq_refl eq_refl Ha Ha H0 H1)))).
Defined.

(** X5.  The problem is homogeneous: multiplying every allocation and
    both totals by t > 0 preserves feasibility, in both directions, and
    multiplies the cost by t. *)
Theorem scaling_the_budgets
        (a_val b_val : list R) (P_tot W_tot t : R)
        (env : Cp.Var -> list R) :
  0 < t ->
  (feasible env (formulate 0 a_val b_val P_tot W_tot)
   <-> feasible (scale t env)
                (formulate 0 a_val b_val (t * P_tot) (t * W_tot)))
  /\ exists v,
       cost env (formulate 0 a_val b_val P_tot W_tot) = Some (Scalar v)
       /\ cost (scale t env)
               (formulate 0 a_val b_val (t * P_tot) (t * W_tot))
          = Some (Scalar (t * v)).
Proof.
  intros Ht. split.
  - rewrite !feasible_formulation. unfold scale.
    rewrite !total_scaled, !Forall_map.
    assert (Hsign : forall l,
               Forall (fun x => 0 <= t * x) l <-> Forall (fun x => 0 <= x) l).
    { intros l. split; intros H; (eapply Forall_impl; [|exact H]);
        simpl; intros x Hx; nra. }
    rewrite !Hsign.
    assert (Hsum : forall x y, t * x = t * y <-> x = y).
    { intros x y. split; [|congruence].
      intros H. apply Rmult_eq_reg_l in H; lra. }
    rewrite !Hsum. tauto.
  - eexists. split; [apply cost_entries|].
    rewrite cost_entries. unfold scale.
    rewrite channels_scaled by lra. reflexivity.
Qed.

Lemma scaling_the_budgets_witness :
  exists v,
    cost (assignment [0; 1] [0; 1]) (formulate 0 [1; 2] [1; 2] 1 1)
    = Some (Scalar v)
    /\ cost (scale 3 (assignment [0; 1] [0; 1]))
            (formulate 0 [1; 2] [1; 2] (3 * 1) (3 * 1))
       = Some (Scalar (3 * v)).
Proof.
  assert (H3 : 0 < 3) by lra.
  exact (proj2 (scaling_the_budgets [1; 2] [1; 2] 1 1 3
                  (assignment [0; 1] [0; 1]) H3)).
Defined.

(** X6.  More power never hurts: for positive coefficients and at least
    one channel, every feasible assignment for the total P_tot can be
    turned into a feasible assignment for a larger total P_tot' whose cost
    is not larger. *)
Theorem more_power_never_hurts
        (a_val b_val : list R) (P_tot P_tot' W_tot : R)
        (env : Cp.Var -> list R) :
  length b_val = length a_val -> well_shaped env (length a_val) ->
  a_val <> [] ->
  Forall (fun a => 0 < a) a_val -> Forall (fun b => 0 < b) b_val ->
  feasible env (formulate 0 a_val b_val P_tot W_tot) ->
  P_tot <= P_tot' ->
  exists env' v v',
    well_shaped env' (length a_val)
    /\ feasible env' (formulate 0 a_val b_val P_tot' W_tot)
    /\ cost env (formulate 0 a_val b_val P_tot W_tot) = Some (Scalar v)
    /\ cost env' (formulate 0 a_val b_val P_tot' W_tot) = Some (Scalar v')
    /\ v' <= v.
Proof.
  intros Lb [LP LW] Hne Ha Hb Hfeas Hle.
  apply feasible_formulation in Hfeas as (Hp & Hw & HPt & HWt).
  destruct a_val as [|a al]; [congruence|].
  destruct b_val as [|b bl]; [discriminate|].
  destruct (env Cp.P) as [|p pl] eqn:EP; [discriminate|].
  destruct (env Cp.W) as [|w wl] eqn:EW; [discriminate|].
  apply Forall_cons_iff in Ha as [Ha0 _].
  apply Forall_cons_iff in Hb as [Hb0 _].
  apply Forall_cons_iff in Hp as [Hp0 Hp'].
  apply Forall_cons_iff in Hw as [Hw0 Hw'].
  unfold total in HPt, HWt. simpl in HPt, HWt.
  exists (assignment ((p + (P_tot' - P_tot)) :: pl) (w :: wl)).
  eexists. eexists.
  split; [split; simpl in *; congruence|].
  split.
  { apply feasible_formulation. simpl. unfold total. simpl.
    split; [constructor; [lra | exact Hp']|].
    split; [constructor; assumption|].
    split; lra. }
  split; [apply cost_entries|]. split; [apply cost_entries|].
  rewrite EP, EW. simpl. unfold total. simpl.
  apply Rplus_le_compat_r.
  rewrite !R_entry_boundary by lra.
  apply Ropp_le_contravar. apply rate_nats_more_power; lra.
Qed.

Lemma more_power_never_hurts_witness :
  exists env' v v',
    well_shaped env' 2
    /\ feasible env' (formulate 0 [1; 2] [1; 2] 2 1)
    /\ cost (assignment [0; 1] [0; 1]) (formulate 0 [1; 2] [1; 2] 1 1)
       = Some (Scalar v)
    /\ cost env' (formulate 0 [1; 2] [1; 2] 2 1) = Some (Scalar v')
    /\ v' <= v.
Proof.
  apply (more_power_never_hurts [1; 2] [1; 2] 1 2 1
           (assignment [0; 1] [0; 1])).
  - reflexivity.
  - split; reflexivity.
  - discriminate.
  - repeat constructor; lra.
  - repeat constructor; lra.
  - apply feasible_formulation. simpl. unfold total. simpl.
    repeat split; repeat constructor; lra.
  - lra.
Defined.

Lemma total_repeat (x : R) (n : nat) : total (repeat x n) = INR n * x.
Proof.
  unfold total. induction n as [|n IH]; [simpl; ring|].
  rewrite S_INR. simpl. rewrite IH. ring.
Qed.

Lemma equal_channels_cost (a b p w : R) (n : nat) :
  total (map chan_entry
           (channels (repeat a n) (repeat b n) (repeat p n) (repeat w n)))
  = INR n * R_entry a b p w.
Proof.
  unfold total. induction n as [|n IH]; [simpl; ring|].
  rewrite S_INR. simpl. rewrite IH. ring.
Qed.

(** X7.  When all channels have the same coefficients α and β, splitting
    both totals equally among the n >= 1 channels is feasible and optimal,
    with cost −α·W_tot·ln(1 + β·P_tot/W_tot). *)
Theorem equal_split_is_optimal (n : nat) (a b P_tot W_tot : R) :
  (0 < n)%nat -> 0 < a -> 0 < b -> 0 <= P_tot -> 0 < W_tot ->
  let prob := formulate 0 (repeat a n) (repeat b n) P_tot W_tot in
  let split := assignment (repeat (/ INR n * P_tot) n)
                          (repeat (/ INR n * W_tot) n) in
  well_shaped split n
  /\ feasible split prob
  /\ cost split prob
     = Some (Scalar (- (a * W_tot * ln (1 + b * P_tot / W_tot))))
  /\ forall env, well_shaped env n -> feasible env prob ->
       exists v, cost env prob = Some (Scalar v)
                 /\ - (a * W_tot * ln (1 + b * P_tot / W_tot)) <= v.
Proof.
  intros Hn Ha Hb HP HW. cbv zeta.
  assert (Hnr : 0 < INR n) by (apply lt_0_INR; exact Hn).
  assert (Hinv : 0 < / INR n) by (apply Rinv_0_lt_compat; exact Hnr).
  split; [|split; [|split]].
  - split; simpl; apply repeat_length.
  - apply feasible_formulation. simpl. rewrite !total_repeat.
    repeat split; try (field; lra);
      apply Forall_forall; intros x Hx; apply repeat_spec in Hx; subst; nra.
  - rewrite cost_entries. simpl. rewrite equal_channels_cost.
    rewrite R_entry_scaled by lra.
    rewrite R_entry_boundary by lra. unfold rate_nats.
    do 2 f_equal. field. lra.
  - intros env Hshape Hfeas.
    rewrite <- (repeat_length a n) in Hshape at 1.
    assert (Lb : length (repeat b n) = length (repeat a n))
      by (rewrite !repeat_length; reflexivity).
    assert (Hal : Forall (fun x => 0 < x <= a) (repeat a n))
      by (apply Forall_forall; intros x Hx; apply repeat_spec in Hx;
          subst; lra).
    assert (Hbl : Forall (fun x => 0 < x <= b) (repeat b n))
      by (apply Forall_forall; intros x Hx; apply repeat_spec in Hx;
          subst; lra).
    destruct (feasible_rate_range _ _ P_tot W_tot a b env
                Lb Hshape Hal Hbl HW Hfeas) as [Hcost Hrange].
    eexists. split; [exact Hcost|]. lra.
Qed.

Lemma equal_split_is_optimal_witness :
  cost (assignment (repeat (/ INR 2 * 1) 2) (repeat (/ INR 2 * 1) 2))
       (formulate 0 (repeat 2 2) (repeat 2 2) 1 1)
  = Some (Scalar (- (2 * 1 * ln (1 + 2 * 1 / 1)))).
Proof.
  assert (Hn : (0 < 2)%nat) by lia.
  assert (H2 : 0 < 2) by lra.
  assert (H0 : 0 <= 1) by lra.
  assert (H1 : 0 < 1) by lra.
  exact (proj1 (proj2 (proj2
           (equal_split_is_optimal 2 2 2 1 1 Hn H2 H2 H0 H1)))).
Defined.
End Allocations.

(** ** The example cell *)

Lemma length_arange (start stop : Z) :
  length (arange start stop) = Z.to_nat (stop - start).
Proof. unfold arange. rewrite length_map, length_seq. reflexivity. Qed.

Lemma length_example_coefficients (n : Z) :
  length (example_coefficients n) = Z.to_nat n.
Proof.
  unfold example_coefficients. rewrite length_map, length_arange.
  f_equal. lia.
Qed.

#[warnings="-inexact-float"] Example example_coefficients_5 :
  example_coefficients n_receivers
  = [2; 2.2; 2.4; 2.6; 2.8]%float.
Proof. reflexivity. Qed.

(** X8.  For a number of receivers [n] with 0 < n < 2^31 - 10 whose
    coefficient vector the library accepts, the example cell calls
    [optimal_power]
    with two equal vectors of [n] entries, so the failure path is not
    taken: the solver is called once, on the problem for these vectors
    with totals 0.5 and 1.0.  When the solver returns, the cell prints
    exactly its four lines, the first being the solver's status; when it
    raises, the exception leaves the cell and nothing is printed. *)
Theorem example_cell_output
        (refuses : list float -> option PyExn)
        (solve : Cp.Problem float -> Outcome Solved)
        (format_4g format_array : PyVal -> string) (n : Z) :
  (0 < n)%Z -> (n + 10 < 2 ^ 31)%Z ->
  refuses (example_coefficients n) = None ->
  let a_val := example_coefficients n in
  let prob := formulate 0%float a_val a_val 0.5%float 1%float in
  let run := example_cell refuses solve format_4g format_array n in
  length a_val = Z.to_nat n
  /\ solver_calls (snd run) = [prob]
  /\ fst run = match solve prob with
               | Returned _ => Returned tt
               | Raised e => Raised e
               end
  /\ stdout (snd run)
     = match solve prob with
       | Returned sol =>
           [ ("Status: " ++ status sol)%string;
             ("Optimal utility value = "
                ++ format_4g (PyFloat (- value sol)%float))%string;
             ("Optimal power level:" ++ newline
                ++ format_array (var_value sol Cp.P))%string;
             ("Optimal bandwidth:" ++ newline
                ++ format_array (var_value sol Cp.W))%string ]
       | Raised _ => []
       end.
Proof.
  intros _ _ Hacc. cbv zeta.
  split; [apply length_example_coefficients|].
  unfold example_cell, optimal_power.
  rewrite body_equal_length_accepted by (reflexivity || exact Hacc).
  cbv zeta. simpl bound_to.
  destruct (solve _) as [sol|e]; repeat split; reflexivity.
Qed.

Lemma example_cell_output_witness :
  stdout (snd (example_cell cvxpy_refuses sample_solver
                            (fun _ => "2.5"%string) (fun _ => "[...]"%string)
                            n_receivers))
  = [ "Status: optimal"%string;
      "Optimal utility value = 2.5"%string;
      ("Optimal power level:" ++ newline ++ "[...]")%string;
      ("Optimal bandwidth:" ++ newline ++ "[...]")%string ].
Proof.
  destruct (example_cell_output cvxpy_refuses sample_solver
              (fun _ => "2.5"%string) (fun _ => "[...]"%string)
              n_receivers eq_refl eq_refl eq_refl)
    as [_ [_ [_ Hout]]].
  exact Hout.
Defined.
